(** * Albert chatbot: the tic-tac-toe game and its opponent policy

    A shallow embedding of [src/components/TicTacToe.tsx] (the game
    component: board, moves, score, resets) and of the game-related part of
    [src/App.tsx] (the host: Albert's move heuristic, the delayed move and
    the duplicated winner check), followed by the properties the
    specification states about them. *)

From Stdlib Require Import List String Ascii Bool Arith ZArith Lia.
Import ListNotations.

Set Implicit Arguments.

(** ** JavaScript values and arrays, as far as the game uses them *)

Module Js.

(** A board cell has TypeScript type [string | null]; reading an array at an
    index it does not have yields [undefined]. *)
Inductive value : Type :=
| Undefined
| Null
| Str (s : string).

(** JavaScript truthiness: [undefined], [null] and the empty string are
    falsy, every other string is truthy. *)
Definition truthy (v : value) : bool :=
  match v with
  | Str (String _ _) => true
  | _ => false
  end.

(** Strict equality [===] on these values. *)
Definition strict_eq (v w : value) : bool :=
  match v, w with
  | Undefined, Undefined => true
  | Null, Null => true
  | Str s, Str t => String.eqb s t
  | _, _ => false
  end.

Definition array : Type := list value.

(** [a[i]]: out of range the read gives [undefined]. *)
Definition get (a : array) (i : nat) : value := nth i a Undefined.

(** [a[i] = v] on a fresh copy: inside the array the element is replaced;
    past its end JavaScript extends the array, the skipped positions being
    holes, which read as [undefined].

    This is the assignment for array indices, the integers below 2^32 - 1.
    For a larger [i] JavaScript sets a plain property instead: [a[i]] reads
    it back on that object, but it is no element, so the length stays and
    the next copy [[...a]] drops it. The list keeps such a value as a cell:
    the read [a[i]] agrees with JavaScript, lengths, counts of cells and
    later copies do not. What is stated below about the number of cells or
    of marks is therefore stated for moves at the nine cells. *)
Fixpoint set (a : array) (i : nat) (v : value) : array :=
  match a, i with
  | [], 0 => [v]
  | [], S i' => Undefined :: set [] i' v
  | _ :: t, 0 => v :: t
  | c :: t, S i' => c :: set t i' v
  end.

(** [a.every(p)]. A hole is skipped by [every]; the only predicate the game
    uses, [cell !== null], holds of [undefined] too, so reading a hole as
    [undefined] gives the same answer. *)
Definition every (p : value -> bool) (a : array) : bool := forallb p a.

(** [Array(n).fill(null)]. *)
Definition fill_null (n : nat) : array := repeat Null n.

(** JavaScript numbers are IEEE 754 doubles, with 53 bits of precision. The
    game only counts with them, so the model holds integer values, as [Z];
    fractions, NaN and the infinities are left out. [round_double z] is the
    double nearest to the integer [z], ties going to the even significand:
    integers below 2^53 in absolute value are doubles themselves, from 2^53
    on only every second integer is, from 2^54 on every fourth, and so on. *)
Definition round_double (z : Z) : Z :=
  let a := Z.abs z in
  if (a <? 9007199254740992)%Z then z
  else
    let e := (Z.log2 a - 52)%Z in
    let q := (a / 2 ^ e)%Z in
    let r := (a mod 2 ^ e)%Z in
    let half := (2 ^ (e - 1))%Z in
    let q' := if (r <? half)%Z then q
              else if (half <? r)%Z then (q + 1)%Z
              else if Z.even q then q else (q + 1)%Z in
    (Z.sgn z * (q' * 2 ^ e))%Z.

(** [x + y] on numbers: the exact sum, rounded. *)
Definition add (x y : Z) : Z := round_double (x + y).

(** [for (let i = i0; i < i0 + n; i++) { if (p(i)) return i }]: the first
    index of the range at which [p] holds. *)
Fixpoint for_first (p : nat -> bool) (i n : nat) : option nat :=
  match n with
  | 0 => None
  | S n' => if p i then Some i else for_first p (S i) n'
  end.

End Js.

(** ** The game component ([src/components/TicTacToe.tsx]) *)

Module TicTacToe.

Import Js.

(** [currentPlayer: 'X' | 'O']. *)
Inductive Player : Type := PX | PO.

Definition mark (p : Player) : value :=
  match p with
  | PX => Str "X"
  | PO => Str "O"
  end.

Definition other (p : Player) : Player :=
  match p with
  | PX => PO
  | PO => PX
  end.

Definition Player_eqb (p q : Player) : bool :=
  match p, q with
  | PX, PX | PO, PO => true
  | _, _ => false
  end.

(** [score: { player: number; albert: number; draws: number }]. The counters
    are JavaScript numbers with integer values; [+= 1] on them is [Js.add],
    which adds 1 exactly below 2^53 and rounds from there on. *)
Record Score : Type := mkScore {
  player : Z;
  albert : Z;
  draws : Z
}.

Record GameState : Type := mkGameState {
  board : array;
  currentPlayer : Player;
  winner : value;
  gameOver : bool;
  score : Score
}.

(** The argument of [onGameEnd]. *)
Inductive GameResult : Type := win | lose | draw.

(** The state [useState] starts from. *)
Definition initialState : GameState :=
  {| board := fill_null 9;
     currentPlayer := PX;
     winner := Null;
     gameOver := false;
     score := mkScore 0 0 0 |}.

Definition lines : list (nat * nat * nat) :=
  [ (0, 1, 2); (3, 4, 5); (6, 7, 8);
    (0, 3, 6); (1, 4, 7); (2, 5, 8);
    (0, 4, 8); (2, 4, 6) ].

(** The test of the loop body:
    [board[a] && board[a] === board[b] && board[a] === board[c]]. *)
Definition line_complete (b : array) (l : nat * nat * nat) : bool :=
  let '(x, y, z) := l in
  truthy (get b x) && strict_eq (get b x) (get b y)
                   && strict_eq (get b x) (get b z).

(** The loop of [checkWinner] over the remaining lines. *)
Fixpoint checkWinner_loop (b : array) (ls : list (nat * nat * nat)) : value :=
  match ls with
  | [] => Null
  | l :: rest =>
      if line_complete b l then get b (fst (fst l))
      else checkWinner_loop b rest
  end.

Definition checkWinner (b : array) : value := checkWinner_loop b lines.

(** What one call of [makeMove] that passes its guard produces: the state
    handed to [setGameState] and [onMove], and the [onGameEnd] call if any. *)
Record MoveEffect : Type := mkMoveEffect {
  newState : GameState;
  gameEnd : option GameResult
}.

(** [makeMove(index)] on the state [gs]; [None] is the early [return]. The
    index is a natural number: the callers pass a button's position in the
    rendered board or a non-negative result of Albert's heuristic. *)
Definition makeMove (gs : GameState) (index : nat) : option MoveEffect :=
  if truthy (get (board gs) index) || gameOver gs then None
  else
    let newBoard := set (board gs) index (mark (currentPlayer gs)) in
    let winner := checkWinner newBoard in
    let isDraw :=
      negb (truthy winner) && every (fun cell => negb (strict_eq cell Null)) newBoard in
    let gameOver := negb (strict_eq winner Null) || isDraw in
    let '(newScore, ended) :=
      if gameOver then
        if strict_eq winner (Str "X") then
          (mkScore (add (player (score gs)) 1) (albert (score gs)) (draws (score gs)),
           Some win)
        else if strict_eq winner (Str "O") then
          (mkScore (player (score gs)) (add (albert (score gs)) 1) (draws (score gs)),
           Some lose)
        else
          (mkScore (player (score gs)) (albert (score gs)) (add (draws (score gs)) 1),
           Some draw)
      else (score gs, None) in
    Some {| newState :=
              {| board := newBoard;
                 currentPlayer :=
                   if Player_eqb (currentPlayer gs) PX then PO else PX;
                 winner := winner;
                 gameOver := gameOver;
                 score := newScore |};
            gameEnd := ended |}.

(** The component's state after [makeMove(index)]: the new state when the
    guard passes, the old one after the early return. *)
Definition applyMove (gs : GameState) (index : nat) : GameState :=
  match makeMove gs index with
  | Some e => newState e
  | None => gs
  end.

Definition resetGame (gs : GameState) : GameState :=
  {| board := fill_null 9;
     currentPlayer := PX;
     winner := Null;
     gameOver := false;
     score := score gs |}.

Definition resetScore (gs : GameState) : GameState :=
  {| board := board gs;
     currentPlayer := currentPlayer gs;
     winner := winner gs;
     gameOver := gameOver gs;
     score := mkScore 0 0 0 |}.

(** The [disabled] attribute of the button of cell [index]. *)
Definition cell_disabled (gs : GameState) (index : nat) : bool :=
  gameOver gs || Player_eqb (currentPlayer gs) PO || truthy (get (board gs) index).

(** What [getStatusMessage] returns: the line shown above the board and
    its colour class. *)
Record Status : Type := mkStatus {
  text : string;
  color : string
}.

Definition getStatusMessage (gs : GameState) : Status :=
  if gameOver gs then
    if strict_eq (winner gs) (Str "X") then
      {| text := "🎉 You Won!"; color := "text-blue-600" |}
    else if strict_eq (winner gs) (Str "O") then
      {| text := "🤖 Albert Won!"; color := "text-red-600" |}
    else
      {| text := "🤝 It's a Draw!"; color := "text-gray-600" |}
  else
    if Player_eqb (currentPlayer gs) PX then
      {| text := "Your Turn (X)"; color := "text-blue-600" |}
    else
      {| text := "Albert's Turn (O)"; color := "text-red-600" |}.

End TicTacToe.

(** ** The host ([src/App.tsx]) *)

Module App.

Import Js.

Definition lines : list (nat * nat * nat) :=
  [ (0, 1, 2); (3, 4, 5); (6, 7, 8);
    (0, 3, 6); (1, 4, 7); (2, 5, 8);
    (0, 4, 8); (2, 4, 6) ].

(** The host's own copy of the winner check. *)
Fixpoint checkWinner_loop (b : array) (ls : list (nat * nat * nat)) : value :=
  match ls with
  | [] => Null
  | (x, y, z) :: rest =>
      if truthy (get b x) && strict_eq (get b x) (get b y)
                          && strict_eq (get b x) (get b z)
      then get b x
      else checkWinner_loop b rest
  end.

Definition checkWinner (b : array) : value := checkWinner_loop b lines.

(** [for (const corner of corners) { if (!board[corner]) return corner }]. *)
Fixpoint first_free (b : array) (cs : list nat) : option nat :=
  match cs with
  | [] => None
  | c :: rest => if negb (truthy (get b c)) then Some c else first_free b rest
  end.

(** [getAlbertMove(board)]: a cell index, or [-1]. *)
Definition getAlbertMove (b : array) : Z :=
  match for_first (fun i => negb (truthy (get b i))
                            && strict_eq (checkWinner (set b i (Str "O"))) (Str "O")) 0 9 with
  | Some i => Z.of_nat i
  | None =>
  match for_first (fun i => negb (truthy (get b i))
                            && strict_eq (checkWinner (set b i (Str "X"))) (Str "X")) 0 9 with
  | Some i => Z.of_nat i
  | None =>
  if negb (truthy (get b 4)) then 4%Z
  else
  match first_free b [0; 2; 6; 8] with
  | Some corner => Z.of_nat corner
  | None =>
  match for_first (fun i => negb (truthy (get b i))) 0 9 with
  | Some i => Z.of_nat i
  | None => (-1)%Z
  end end end end.

End App.

(** ** The host and the component together

    The React state the game touches, and the pending [setTimeout]
    callbacks. A callback of [handleGameMove] is determined by the board it
    captured, so a pending timer is that board; the list is in firing order
    (all delays are 1000 ms). *)

Module Session.

Import Js TicTacToe.

Record Host : Type := mkHost {
  game : GameState;
  albertNextMove : option nat;
  timers : list array
}.

Definition initialHost : Host :=
  {| game := initialState; albertNextMove := None; timers := [] |}.

(** [handleGameMove(gameState)], the [onMove] prop: on Albert's turn in a
    running game it schedules the delayed choice of a move. *)
Definition handleGameMove (h : Host) (gs : GameState) : Host :=
  if Player_eqb (currentPlayer gs) PO && negb (gameOver gs) then
    {| game := game h;
       albertNextMove := albertNextMove h;
       timers := timers h ++ [board gs] |}
  else h.

(** [handleGameEnd(result)], the [onGameEnd] prop: it posts a chat message
    (not modelled) and clears [albertNextMove]. *)
Definition handleGameEnd (h : Host) (r : GameResult) : Host :=
  {| game := game h; albertNextMove := None; timers := timers h |}.

(** The body of the [setTimeout] callback, for the captured board [b]. *)
Definition timer_callback (h : Host) (b : array) : Host :=
  let move := App.getAlbertMove b in
  if negb (move =? -1)%Z then
    {| game := game h;
       albertNextMove := Some (Z.to_nat move);
       timers := timers h |}
  else h.

(** [makeMove(index)] with its callbacks: [onGameEnd] is called while the
    score is computed, then [setGameState] and [onMove]. *)
Definition component_makeMove (h : Host) (index : nat) : Host :=
  match makeMove (game h) index with
  | None => h
  | Some e =>
      let h1 := match gameEnd e with
                | Some r => handleGameEnd h r
                | None => h
                end in
      handleGameMove
        {| game := newState e;
           albertNextMove := albertNextMove h1;
           timers := timers h1 |}
        (newState e)
  end.

(** The component's [useEffect]: with a move from Albert at hand, on his
    turn in a running game, play it. *)
Definition albert_effect (h : Host) : Host :=
  match albertNextMove h with
  | Some m =>
      if Player_eqb (currentPlayer (game h)) PO && negb (gameOver (game h))
      then component_makeMove h m
      else h
  | None => h
  end.

(** The effect's dependency list
    [[albertMove, gameState.currentPlayer, gameState.gameOver]]. *)
Definition same_deps (h h' : Host) : bool :=
  match albertNextMove h, albertNextMove h' with
  | Some m, Some m' => Nat.eqb m m'
  | None, None => true
  | _, _ => false
  end
  && Player_eqb (currentPlayer (game h)) (currentPlayer (game h'))
  && Bool.eqb (gameOver (game h)) (gameOver (game h')).

(** The render after an event handler took the host from [h] to [h']: the
    effect runs when a dependency changed. *)
Definition rerender (h h' : Host) : Host :=
  if same_deps h h' then h' else albert_effect h'.

Inductive Event : Type :=
| Click (index : nat)      (* the user clicks the button of a cell *)
| NewGame                  (* the "New Game" button: [resetGame] *)
| ResetScore               (* the "Reset Score" button: [resetScore] *)
| TimerFires.              (* the oldest pending timer fires *)

Definition step (h : Host) (ev : Event) : Host :=
  match ev with
  | Click index =>
      if (index <? List.length (board (game h))) && negb (cell_disabled (game h) index)
      then rerender h (component_makeMove h index)
      else h
  | NewGame =>
      let s := resetGame (game h) in
      rerender h
        (handleGameMove
           {| game := s; albertNextMove := albertNextMove h; timers := timers h |} s)
  | ResetScore =>
      let s := resetScore (game h) in
      rerender h
        (handleGameMove
           {| game := s; albertNextMove := albertNextMove h; timers := timers h |} s)
  | TimerFires =>
      match timers h with
      | [] => h
      | b :: rest =>
          rerender h
            (timer_callback
               {| game := game h; albertNextMove := albertNextMove h; timers := rest |} b)
      end
  end.

Definition run (h : Host) (evs : list Event) : Host := fold_left step evs h.

End Session.

(** ** The specification's reading of the opponent policy and of the evaluator *)

Module Spec.

Import Js.

(** A cell is empty when it holds no mark. *)
Definition is_empty (b : array) (i : nat) : bool := negb (truthy (get b i)).

(** The eight lines: three rows, three columns, two diagonals. *)
Definition rows : list (nat * nat * nat) := [ (0, 1, 2); (3, 4, 5); (6, 7, 8) ].
Definition columns : list (nat * nat * nat) := [ (0, 3, 6); (1, 4, 7); (2, 5, 8) ].
Definition diagonals : list (nat * nat * nat) := [ (0, 4, 8); (2, 4, 6) ].
Definition all_lines : list (nat * nat * nat) := rows ++ columns ++ diagonals.

(** All three cells of the line hold the mark [m]. *)
Definition line_of (b : array) (m : string) (l : nat * nat * nat) : bool :=
  let '(x, y, z) := l in
  strict_eq (get b x) (Str m) && strict_eq (get b y) (Str m)
                              && strict_eq (get b z) (Str m).

(** Placing [m] at cell [i] produces a completed line for [m]. *)
Definition completes (b : array) (m : string) (i : nat) : bool :=
  existsb (line_of (set b i (Str m)) m) all_lines.

(** The lowest index among [candidates] (listed in increasing order) that
    satisfies [p]. *)
Definition lowest (p : nat -> bool) (candidates : list nat) : option nat :=
  find p candidates.

Definition corners : list nat := [0; 2; 6; 8].


(** The board has no empty cell. *)
Definition board_full (b : array) : bool := forallb truthy b.

(** A line is a win when its three cells hold the same non-empty mark. *)
Definition is_win (b : array) (l : nat * nat * nat) : bool :=
  let '(x, y, z) := l in
  truthy (get b x) && strict_eq (get b x) (get b y) && strict_eq (get b y) (get b z).

(** The mark of the first winning line in the fixed order, or none. *)
Definition evaluate_winner (b : array) : value :=
  match find (is_win b) all_lines with
  | Some (x, _, _) => get b x
  | None => Null
  end.

End Spec.

Import Js TicTacToe.

(** How [getAlbertMove] encodes a choice: the index, or [-1] for none. *)
Definition encode_move (o : option nat) : Z :=
  match o with
  | Some i => Z.of_nat i
  | None => (-1)%Z
  end.

Definition X : value := Str "X".
Definition O : value := Str "O".

(** The states the component can be in: from the initial state by moves
    and the two resets. *)
Inductive reachable : GameState -> Prop :=
| reach_init : reachable initialState
| reach_move s index : reachable s -> reachable (applyMove s index)
| reach_resetGame s : reachable s -> reachable (resetGame s)
| reach_resetScore s : reachable s -> reachable (resetScore s).

(** [newBoard.every(cell => cell !== null)]: no cell is [null]. *)
Definition no_null_cell (b : array) : bool :=
  every (fun cell => negb (strict_eq cell Null)) b.

(** The score after a game that ended with [w] as the result of the winner
    check: one more win for the player, for Albert, or one more draw. *)
Definition credit (sc : Score) (w : value) : Score :=
  if strict_eq w (Str "X") then mkScore (add (player sc) 1) (albert sc) (draws sc)
  else if strict_eq w (Str "O") then mkScore (player sc) (add (albert sc) 1) (draws sc)
  else mkScore (player sc) (albert sc) (add (draws sc) 1).

(** The integers to which JavaScript adds 1 exactly: from -2^53 up to, not
    including, 2^53. *)
Definition below_2_53 (n : Z) : Prop :=
  (- 9007199254740992 <= n < 9007199254740992)%Z.


(** "Exactly one of three". *)
Definition exactly_one (A B C : Prop) : Prop :=
  (A /\ ~ B /\ ~ C) \/ (~ A /\ B /\ ~ C) \/ (~ A /\ ~ B /\ C).

(** A game in which X is about to complete the top row:
    [[X,X,_,O,O,_,_,_,_]] with X to move. *)
Definition x_about_to_win : GameState :=
  fold_left applyMove [0; 3; 1; 4] initialState.

(** The test of the first two loops of [getAlbertMove], for the mark [m]. *)
Definition placing_wins (b : array) (m : string) (i : nat) : bool :=
  negb (truthy (get b i)) && strict_eq (App.checkWinner (set b i (Str m))) (Str m).


(** The board of the scenario: [[O,O,_,X,X,_,_,_,_]]. *)
Definition scenario_board : array := [O; O; Null; X; X; Null; Null; Null; Null].

(** The user plays the center, presses "New Game" within the second Albert
    takes to think, the timer fires, and the user plays cell 8. *)
Definition ghost_trace : list Session.Event :=
  [Session.Click 4; Session.NewGame; Session.TimerFires; Session.Click 8].

(** The board after X opened in the center: [[_,_,_,_,X,_,_,_,_]]. *)
Definition board_after_center : array := board (applyMove initialState 4).

(** The states the interface leads to: as [reachable], with every move at
    one of the nine cells. *)
Inductive played : GameState -> Prop :=
| played_init : played initialState
| played_move s index : played s -> index < 9 -> played (applyMove s index)
| played_resetGame s : played s -> played (resetGame s)
| played_resetScore s : played s -> played (resetScore s).

(** A cell of a well-formed board: [null], ['X'] or ['O']. *)
Definition cell_ok (c : value) : Prop := c = Null \/ c = X \/ c = O.

(** The number of cells of the board that hold the mark [m]. *)
Definition count_mark (m : value) (b : array) : nat :=
  List.length (filter (strict_eq m) b).

(** A host at rest on the user's turn: no timer is pending, and the move
    left in [albertNextMove], if any, names a cell that is taken. *)
Definition at_rest (h : Session.Host) : Prop :=
  Session.timers h = []
  /\ currentPlayer (Session.game h) = PX
  /\ gameOver (Session.game h) = false
  /\ forall k, Session.albertNextMove h = Some k ->
               truthy (get (board (Session.game h)) k) = true.

(** A host with one move by X and one by O behind it, each move of O
    having gone through the timer: on [[O,_,_,_,X,_,_,_,_]], X to move. *)
Definition host_after_one_round : Session.Host :=
  Session.run Session.initialHost [Session.Click 4; Session.TimerFires].

(** The host and the component are in step with the interface: the game
    state was reached by moves at the nine cells, and a move handed over by
    the host names one of them. *)
Definition session_ok (h : Session.Host) : Prop :=
  played (Session.game h)
  /\ forall m, Session.albertNextMove h = Some m -> m < 9.

(** A game one move before its end in a draw: [[X,O,X,X,O,O,O,X,_]] with X
    to move. *)
Definition before_draw : GameState :=
  fold_left applyMove [0; 1; 2; 4; 3; 5; 7; 6] initialState.

(** X threatens the top row and O has no line to complete:
    [[X,X,_,_,O,_,_,_,_]]. *)
Definition board_x_threatens : array :=
  board (fold_left applyMove [0; 4; 1] initialState).

(** * Properties *)

(** ** Values and arrays *)

Lemma strict_eq_true (v w : value) : strict_eq v w = true <-> v = w.
Proof.
  destruct v as [| |s], w as [| |t]; simpl; split; intros H;
    try reflexivity; try discriminate.
  - apply String.eqb_eq in H. now subst.
  - injection H as ->. apply String.eqb_refl.
Qed.


Lemma strict_eq_false (v w : value) : strict_eq v w = false <-> v <> w.
Proof.
  split.
  - intros H E. apply strict_eq_true in E. congruence.
  - intros H. destruct (strict_eq v w) eqn:E; [|reflexivity].
    apply strict_eq_true in E. contradiction.
Qed.

Lemma get_nil (i : nat) : get [] i = Undefined.
Proof. now destruct i. Qed.

(** Reading after a write: the written index holds the value, every other
    index reads as before, also when the write extended the array. *)
Lemma get_set (a : array) (i : nat) (v : value) (j : nat) :
  get (set a i v) j = if Nat.eqb j i then v else get a j.
Proof.
  revert a j. induction i as [|i IH]; intros [|c t] [|j]; simpl;
    try reflexivity; try (now destruct j).
  - change (get (set [] i v) j = if Nat.eqb j i then v else get [] (S j)).
    rewrite IH, !get_nil. reflexivity.
  - apply (IH t j).
Qed.

Lemma get_set_same (a : array) (i : nat) (v : value) : get (set a i v) i = v.
Proof. now rewrite get_set, Nat.eqb_refl. Qed.

Lemma get_set_other (a : array) (i j : nat) (v : value) :
  j <> i -> get (set a i v) j = get a j.
Proof. intros H. rewrite get_set. now apply Nat.eqb_neq in H as ->. Qed.

(** ** The winner check *)

Lemma checkWinner_loop_same (b : array) (ls : list (nat * nat * nat)) :
  TicTacToe.checkWinner_loop b ls = App.checkWinner_loop b ls.
Proof.
  induction ls as [|[[x y] z] rest IH]; simpl; [reflexivity|].
  now rewrite IH.
Qed.

Lemma checkWinner_same (b : array) : TicTacToe.checkWinner b = App.checkWinner b.
Proof. apply checkWinner_loop_same. Qed.

Lemma is_win_line_complete (b : array) (l : nat * nat * nat) :
  Spec.is_win b l = line_complete b l.
Proof.
  destruct l as [[x y] z]. unfold Spec.is_win, line_complete.
  destruct (strict_eq (get b x) (get b y)) eqn:E.
  - apply strict_eq_true in E. now rewrite E.
  - now rewrite !andb_false_r.
Qed.

Lemma checkWinner_loop_find (b : array) (ls : list (nat * nat * nat)) :
  TicTacToe.checkWinner_loop b ls =
  match find (Spec.is_win b) ls with
  | Some (x, _, _) => get b x
  | None => Null
  end.
Proof.
  induction ls as [|[[x y] z] rest IH]; [reflexivity|].
  cbn [TicTacToe.checkWinner_loop find fst].
  rewrite is_win_line_complete. now destruct (line_complete b (x, y, z)).
Qed.

(** The winner check answers [null] or a truthy mark. *)
Lemma checkWinner_loop_Null_or_truthy (b : array) (ls : list (nat * nat * nat)) :
  TicTacToe.checkWinner_loop b ls = Null \/ truthy (TicTacToe.checkWinner_loop b ls) = true.
Proof.
  induction ls as [|[[x y] z] rest IH]; [now left|].
  cbn [TicTacToe.checkWinner_loop fst].
  destruct (line_complete b (x, y, z)) eqn:E; [|exact IH].
  right. unfold line_complete in E.
  apply andb_prop in E as [E _]. now apply andb_prop in E as [E _].
Qed.

(** C10. The winner check of the game component and the one of the host
    return the same result on every board, and that result is the mark of
    the first completed line in the order rows, columns, diagonals, or
    [null] when no line is complete. *)
Theorem checkWinner_duplicates_agree (b : array) :
  TicTacToe.checkWinner b = App.checkWinner b
  /\ TicTacToe.checkWinner b = Spec.evaluate_winner b.
Proof.
  split.
  - apply checkWinner_same.
  - apply checkWinner_loop_find.
Qed.

(** ** Moves *)

Lemma makeMove_guard (gs : GameState) (index : nat) :
  makeMove gs index = None <->
  (gameOver gs = true \/ truthy (get (board gs) index) = true).
Proof.
  unfold makeMove.
  destruct (truthy (get (board gs) index)), (gameOver gs); simpl;
    try (split; [auto|reflexivity]).
  split; [|intros [H|H]; discriminate].
  destruct (negb _ || _); [destruct (strict_eq _ _); [|destruct (strict_eq _ _)]|];
    discriminate.
Qed.

(** What a call of [makeMove] that passes its guard produces. *)
Lemma makeMove_Some (gs : GameState) (index : nat) (e : MoveEffect) :
  makeMove gs index = Some e ->
  let b' := set (board gs) index (mark (currentPlayer gs)) in
  let w := checkWinner b' in
  let over := negb (strict_eq w Null) || negb (truthy w) && no_null_cell b' in
  gameOver gs = false
  /\ truthy (get (board gs) index) = false
  /\ board (newState e) = b'
  /\ currentPlayer (newState e) = other (currentPlayer gs)
  /\ winner (newState e) = w
  /\ gameOver (newState e) = over
  /\ score (newState e) = (if over then credit (score gs) w else score gs).
Proof.
  unfold makeMove, credit, no_null_cell.
  destruct (truthy _ || gameOver gs) eqn:G; [discriminate|].
  apply orb_false_elim in G as [G1 G2].
  destruct (negb _ || _) eqn:Hover;
    [destruct (strict_eq _ (Str "X")); [|destruct (strict_eq _ (Str "O"))]|];
    intros [= <-]; cbn [newState board currentPlayer winner gameOver score];
    rewrite ?Hover; repeat split; auto; now destruct (currentPlayer gs).
Qed.

Lemma makeMove_currentPlayer (gs : GameState) (index : nat) (e : MoveEffect) :
  makeMove gs index = Some e ->
  currentPlayer (newState e) = other (currentPlayer gs).
Proof. intros H. apply makeMove_Some in H. tauto. Qed.

Lemma other_neq (p : Player) : other p <> p.
Proof. destruct p; discriminate. Qed.

(** C1, as amended. Whenever [makeMove] passes its guard (the game is running
    and the cell holds no mark), the resulting state's [currentPlayer] is the
    other mark, whether or not the move ended the game. *)
Theorem applyMove_always_flips (gs : GameState) (index : nat) :
  gameOver gs = false ->
  truthy (get (board gs) index) = false ->
  currentPlayer (applyMove gs index) = other (currentPlayer gs).
Proof.
  intros Hover Hcell. unfold applyMove.
  destruct (makeMove gs index) as [e|] eqn:E.
  - now apply makeMove_currentPlayer with index.
  - apply makeMove_guard in E as [E|E]; congruence.
Qed.

Lemma applyMove_always_flips_witness :
  gameOver x_about_to_win = false
  /\ truthy (get (board x_about_to_win) 2) = false
  /\ currentPlayer (applyMove x_about_to_win 2) = other (currentPlayer x_about_to_win).
Proof.
  split; [reflexivity|]. split; [reflexivity|].
  apply (@applyMove_always_flips x_about_to_win 2); reflexivity.
Defined.

(** C1 as stated fails: on [[X,X,_,O,O,_,_,_,_]] with X to move, cell 2
    satisfies the preconditions, the move ends the game, and [currentPlayer]
    has become O all the same. *)
Lemma move_ending_game_flips_turn :
  gameOver x_about_to_win = false
  /\ 2 < 9
  /\ get (board x_about_to_win) 2 = Null
  /\ currentPlayer x_about_to_win = PX
  /\ gameOver (applyMove x_about_to_win 2) = true
  /\ currentPlayer (applyMove x_about_to_win 2) <> currentPlayer x_about_to_win.
Proof.
  split; [reflexivity|]. split; [lia|]. split; [reflexivity|].
  split; [reflexivity|]. split; [reflexivity|].
  vm_compute. discriminate.
Qed.

(** C2, as amended. [makeMove] returns early, leaving the state as it is and
    calling neither [onMove] nor [onGameEnd], exactly when the game is over
    or the cell read at the index holds a mark; in every other case,
    an index past the board included, the state changes. *)
Theorem applyMove_noop_iff (gs : GameState) (index : nat) :
  (gameOver gs = true \/ truthy (get (board gs) index) = true <->
   makeMove gs index = None)
  /\ (makeMove gs index = None <-> applyMove gs index = gs).
Proof.
  split; [symmetry; apply makeMove_guard|].
  unfold applyMove. split.
  - now intros ->.
  - destruct (makeMove gs index) as [e|] eqn:E; [|reflexivity].
    intros H. apply makeMove_currentPlayer in E. rewrite H in E.
    symmetry in E. now apply other_neq in E.
Qed.

(** C2 as stated fails: index 9 is outside 0..8, and on the initial state
    the move is carried out: the board grows to ten cells and the turn
    passes to O. *)
Lemma move_past_the_board_is_applied :
  ~ 9 < 9
  /\ applyMove initialState 9 <> initialState
  /\ board (applyMove initialState 9) = repeat Null 9 ++ [X]
  /\ currentPlayer (applyMove initialState 9) = PO.
Proof.
  split; [lia|]. split; [vm_compute; discriminate|].
  split; reflexivity.
Qed.

(** ** The game-over invariant *)

Lemma makeMove_gameOver (gs : GameState) (index : nat) (e : MoveEffect) :
  makeMove gs index = Some e ->
  winner (newState e) = checkWinner (board (newState e))
  /\ gameOver (newState e) =
     negb (strict_eq (winner (newState e)) Null) || no_null_cell (board (newState e)).
Proof.
  intros H. apply makeMove_Some in H as (_ & _ & Hb & _ & Hw & Hg & _).
  rewrite Hg, Hw, Hb. split; [reflexivity|].
  now destruct (checkWinner _) as [| |t].
Qed.

Lemma reachable_gameOver (s : GameState) :
  reachable s ->
  gameOver s = negb (strict_eq (winner s) Null) || no_null_cell (board s).
Proof.
  induction 1 as [|s index _ IH|s _ _|s _ IH]; try reflexivity; try exact IH.
  unfold applyMove. destruct (makeMove s index) as [e|] eqn:E; [|exact IH].
  now apply makeMove_gameOver in E.
Qed.

(** C5. In every state reachable from the initial one by moves, board resets
    and score resets, exactly one of "no winner and some cell still null",
    "a winner", "no cell null and no winner" holds, and [gameOver] is true
    exactly when there is a winner or no cell of the board is null. *)
Theorem reachable_gameOver_invariant (s : GameState) :
  reachable s ->
  exactly_one (winner s = Null /\ no_null_cell (board s) = false)
              (winner s <> Null)
              (winner s = Null /\ no_null_cell (board s) = true)
  /\ (gameOver s = true <-> winner s <> Null \/ no_null_cell (board s) = true).
Proof.
  intros R. apply reachable_gameOver in R. rewrite R. clear R.
  unfold exactly_one.
  destruct (strict_eq (winner s) Null) eqn:W.
  - apply strict_eq_true in W. rewrite W.
    destruct (no_null_cell (board s)); simpl.
    + split; [right; right|]; intuition congruence.
    + split; [left|]; intuition congruence.
  - apply strict_eq_false in W. simpl.
    split; [right; left|]; intuition congruence.
Qed.

Lemma reachable_gameOver_invariant_witness :
  reachable (applyMove x_about_to_win 2)
  /\ exactly_one
       (winner (applyMove x_about_to_win 2) = Null
        /\ no_null_cell (board (applyMove x_about_to_win 2)) = false)
       (winner (applyMove x_about_to_win 2) <> Null)
       (winner (applyMove x_about_to_win 2) = Null
        /\ no_null_cell (board (applyMove x_about_to_win 2)) = true)
  /\ (gameOver (applyMove x_about_to_win 2) = true <->
      winner (applyMove x_about_to_win 2) <> Null
      \/ no_null_cell (board (applyMove x_about_to_win 2)) = true).
Proof.
  assert (R : reachable (applyMove x_about_to_win 2)).
  { unfold x_about_to_win. cbn [fold_left]. do 5 apply reach_move. apply reach_init. }
  split; [exact R|].
  apply (@reachable_gameOver_invariant (applyMove x_about_to_win 2) R).
Defined.

(** With every move at one of the nine cells the board keeps its nine
    cells, each [null], ['X'] or ['O']; "no cell is null" then says that no
    cell is empty. *)
Lemma set_length (a : array) (i : nat) (v : value) :
  i < List.length a -> List.length (set a i v) = List.length a.
Proof.
  revert i. induction a as [|c t IH]; intros [|i] H; simpl in *; try lia.
  rewrite IH; lia.
Qed.

Lemma set_Forall (P : value -> Prop) (a : array) (i : nat) (v : value) :
  i < List.length a -> P v -> Forall P a -> Forall P (set a i v).
Proof.
  intros Hi Hv Ha. revert i Hi.
  induction Ha as [|c t Hc Ht IH]; intros [|i] Hi; simpl in *; try lia.
  - now constructor.
  - constructor; [assumption|]. apply IH. lia.
Qed.

Lemma played_board (s : GameState) :
  played s -> List.length (board s) = 9 /\ Forall cell_ok (board s).
Proof.
  induction 1 as [|s index _ [IHl IHf] Hi|s _ _|s _ IH]; try exact IH.
  - split; [reflexivity|]. repeat constructor.
  - unfold applyMove. destruct (makeMove s index) as [e|] eqn:E; [|now split].
    apply makeMove_Some in E as (_ & _ & -> & _). split.
    + rewrite set_length; lia.
    + apply set_Forall; [lia| |assumption].
      destruct (currentPlayer s); [right; left|right; right]; reflexivity.
  - split; [reflexivity|]. repeat constructor.
Qed.

Lemma played_reachable (s : GameState) : played s -> reachable s.
Proof. induction 1; now constructor. Qed.

Lemma played_no_null_cell (s : GameState) :
  played s -> no_null_cell (board s) = Spec.board_full (board s).
Proof.
  intros H. apply played_board in H as [_ H].
  unfold no_null_cell, every, Spec.board_full.
  induction H as [|c t Hc _ IH]; simpl; [reflexivity|].
  rewrite IH. now destruct Hc as [->|[->| ->]].
Qed.

(** ** Score *)

(** Adding 1 is exact from -2^53 up to 2^53. *)
Lemma add_1_exact (n : Z) : below_2_53 n -> Js.add n 1 = (n + 1)%Z.
Proof.
  unfold below_2_53, Js.add, round_double. intros H.
  destruct (Z.eq_dec n 9007199254740991) as [->|N]; [reflexivity|].
  replace (Z.abs (n + 1) <? 9007199254740992)%Z with true; [reflexivity|].
  symmetry. apply Z.ltb_lt. lia.
Qed.




(** ** Resets *)

(** C7. [resetGame] gives nine empty cells, X to move, no winner, a running
    game and the score it was given; [resetScore] gives an all-zero score
    and the board, turn, winner and game-over flag it was given. *)
Theorem resets_frame (gs : GameState) :
  (board (resetGame gs) = [Null; Null; Null; Null; Null; Null; Null; Null; Null]
   /\ currentPlayer (resetGame gs) = PX
   /\ winner (resetGame gs) = Null
   /\ gameOver (resetGame gs) = false
   /\ score (resetGame gs) = score gs)
  /\ (score (resetScore gs) = mkScore 0 0 0
      /\ board (resetScore gs) = board gs
      /\ currentPlayer (resetScore gs) = currentPlayer gs
      /\ winner (resetScore gs) = winner gs
      /\ gameOver (resetScore gs) = gameOver gs).
Proof. repeat split. Qed.

(** C8. Each reset is idempotent. *)
Theorem resets_idempotent (gs : GameState) :
  resetGame (resetGame gs) = resetGame gs
  /\ resetScore (resetScore gs) = resetScore gs.
Proof. split; reflexivity. Qed.

(** ** Albert's heuristic *)

Lemma for_first_find (p : nat -> bool) (i n : nat) :
  for_first p i n = find p (seq i n).
Proof.
  revert i. induction n as [|n IH]; intros i; simpl; [reflexivity|].
  now rewrite IH.
Qed.


Lemma find_None_iff (A : Type) (p : A -> bool) (l : list A) :
  find p l = None <-> forall x, In x l -> p x = false.
Proof.
  split; [apply find_none|].
  induction l as [|a l IH]; intros H; simpl; [reflexivity|].
  rewrite (H a) by now left. apply IH. intros x Hx. apply H. now right.
Qed.

Lemma first_free_find (b : array) (cs : list nat) :
  App.first_free b cs = find (Spec.is_empty b) cs.
Proof.
  induction cs as [|c cs IH]; simpl; [reflexivity|].
  unfold Spec.is_empty at 1. now rewrite IH.
Qed.





Lemma board_full_get (b : array) :
  Spec.board_full b = true <->
  forall i, i < List.length b -> truthy (get b i) = true.
Proof.
  unfold Spec.board_full. rewrite forallb_forall. split.
  - intros H i Hi. apply H, nth_In, Hi.
  - intros H c Hc. apply (In_nth _ _ Undefined) in Hc as (i & Hi & <-).
    now apply H.
Qed.

(** The heuristic with its loops read as searches. *)
Lemma getAlbertMove_shape (b : array) :
  App.getAlbertMove b =
  match find (placing_wins b "O") (seq 0 9) with
  | Some i => Z.of_nat i
  | None =>
  match find (placing_wins b "X") (seq 0 9) with
  | Some i => Z.of_nat i
  | None =>
  if Spec.is_empty b 4 then 4%Z
  else
  match find (Spec.is_empty b) [0; 2; 6; 8] with
  | Some corner => Z.of_nat corner
  | None =>
  match find (Spec.is_empty b) (seq 0 9) with
  | Some i => Z.of_nat i
  | None => (-1)%Z
  end end end end.
Proof.
  unfold App.getAlbertMove. now rewrite !for_first_find, first_free_find.
Qed.

(** Whatever the board, the heuristic answers [-1] or the index of a cell
    among the nine that holds no mark. *)
Lemma getAlbertMove_free_cell (b : array) (i : nat) :
  App.getAlbertMove b = Z.of_nat i -> i < 9 /\ truthy (get b i) = false.
Proof.
  rewrite getAlbertMove_shape.
  assert (S9 : forall k, In k (seq 0 9) -> k < 9) by (intros k Hk; apply in_seq in Hk; lia).
  destruct (find (placing_wins b "O") _) as [k|] eqn:E1.
  { intros H. apply Nat2Z.inj in H as ->. apply find_some in E1 as [Hin Hp].
    apply andb_prop in Hp as [Hp _]. apply negb_true_iff in Hp. auto. }
  destruct (find (placing_wins b "X") _) as [k|] eqn:E2.
  { intros H. apply Nat2Z.inj in H as ->. apply find_some in E2 as [Hin Hp].
    apply andb_prop in Hp as [Hp _]. apply negb_true_iff in Hp. auto. }
  destruct (Spec.is_empty b 4) eqn:E3.
  { intros H. apply (Nat2Z.inj 4) in H as <-. apply negb_true_iff in E3.
    split; [lia|assumption]. }
  destruct (find (Spec.is_empty b) [0; 2; 6; 8]) as [k|] eqn:E4.
  { intros H. apply Nat2Z.inj in H as ->. apply find_some in E4 as [Hin Hp].
    apply negb_true_iff in Hp. split; [|assumption].
    simpl in Hin. lia. }
  destruct (find (Spec.is_empty b) (seq 0 9)) as [k|] eqn:E5.
  { intros H. apply Nat2Z.inj in H as ->. apply find_some in E5 as [Hin Hp].
    apply negb_true_iff in Hp. auto. }
  lia.
Qed.

(** The answer is [-1] exactly when none of the nine cells is free. *)
Lemma getAlbertMove_none (b : array) :
  App.getAlbertMove b = (-1)%Z <-> forall i, i < 9 -> truthy (get b i) = true.
Proof.
  rewrite getAlbertMove_shape. split.
  - destruct (find (placing_wins b "O") _); [lia|].
    destruct (find (placing_wins b "X") _); [lia|].
    destruct (Spec.is_empty b 4); [lia|].
    destruct (find _ [0; 2; 6; 8]); [lia|].
    destruct (find _ (seq 0 9)) eqn:E; [lia|].
    intros _ i Hi. apply negb_false_iff.
    apply (find_none _ _ E). apply in_seq. lia.
  - intros H.
    assert (F : forall k, k < 9 -> Spec.is_empty b k = false).
    { intros k Hk. unfold Spec.is_empty. now rewrite H. }
    assert (S9 : forall k, In k (seq 0 9) -> k < 9)
      by (intros k Hk; apply in_seq in Hk; lia).
    rewrite (proj2 (find_None_iff (placing_wins b "O") (seq 0 9)))
      by (intros k Hk; unfold placing_wins; fold (Spec.is_empty b k); now rewrite F by auto).
    rewrite (proj2 (find_None_iff (placing_wins b "X") (seq 0 9)))
      by (intros k Hk; unfold placing_wins; fold (Spec.is_empty b k); now rewrite F by auto).
    rewrite (F 4) by lia.
    rewrite (proj2 (find_None_iff (Spec.is_empty b) [0; 2; 6; 8]))
      by (intros k Hk; apply F; simpl in Hk; lia).
    rewrite (proj2 (find_None_iff (Spec.is_empty b) (seq 0 9))) by auto.
    reflexivity.
Qed.




(** C4, as amended. On [[O,O,_,X,X,_,_,_,_]] with O to move the heuristic
    answers cell 2, which is the lowest-index empty corner; it does so by its
    first rule, since O at cell 2 completes the top row. A block is available
    too (X at cell 5 would complete the middle row), and the center is
    occupied. *)
Theorem scenario_two_in_a_row :
  App.getAlbertMove scenario_board = 2%Z
  /\ Spec.lowest (Spec.is_empty scenario_board) Spec.corners = Some 2
  /\ for_first (placing_wins scenario_board "O") 0 9 = Some 2
  /\ Spec.completes scenario_board "O" 2 = true
  /\ Spec.is_empty scenario_board 5 = true
  /\ Spec.completes scenario_board "X" 5 = true
  /\ Spec.is_empty scenario_board 4 = false.
Proof. repeat split. Qed.

(** C4 as stated fails: the answer is not reached with "no immediate win or
    block available", since both are. *)
Lemma scenario_has_win_and_block :
  ~ (App.getAlbertMove scenario_board
       = encode_move (Spec.lowest (Spec.is_empty scenario_board) Spec.corners)
     /\ (forall i, i < 9 -> Spec.is_empty scenario_board i = true ->
                   Spec.completes scenario_board "O" i = false)
     /\ (forall i, i < 9 -> Spec.is_empty scenario_board i = true ->
                   Spec.completes scenario_board "X" i = false)
     /\ Spec.is_empty scenario_board 4 = false).
Proof.
  intros (_ & Hwin & _). specialize (Hwin 2). 
  assert (H : Spec.completes scenario_board "O" 2 = false)
    by (apply Hwin; [lia|reflexivity]).
  vm_compute in H. discriminate.
Qed.

(** ** The delayed move *)

(** After the effect has run, running it again changes nothing: a move it
    played has passed the turn to X. *)
Lemma albert_effect_settles (h : Session.Host) :
  Session.albert_effect (Session.albert_effect h) = Session.albert_effect h.
Proof.
  remember (Session.albert_effect h) as h' eqn:Hh'.
  unfold Session.albert_effect in Hh'.
  destruct (Session.albertNextMove h) as [m|] eqn:Em.
  2: { subst h'. unfold Session.albert_effect. now rewrite Em. }
  destruct (Player_eqb _ PO && negb _) eqn:C.
  2: { subst h'. unfold Session.albert_effect. now rewrite Em, C. }
  unfold Session.component_makeMove in Hh'.
  destruct (makeMove (Session.game h) m) as [e|] eqn:E.
  2: { subst h'. unfold Session.albert_effect, Session.component_makeMove.
       now rewrite Em, C, E. }
  apply makeMove_Some in E as (_ & _ & _ & Hp & _).
  apply andb_prop in C as [C _].
  destruct (currentPlayer (Session.game h)); [discriminate|]. simpl in Hp.
  unfold Session.handleGameMove in Hh'. rewrite Hp in Hh'. simpl in Hh'.
  subst h'. unfold Session.albert_effect. simpl. rewrite Hp. simpl.
  now destruct (Session.albertNextMove
                  match gameEnd e with
                  | Some r => Session.handleGameEnd h r
                  | None => h
                  end).
Qed.

(** Neither reset takes a pending timer away: after "New Game" the pending
    timers are those from before, after "Reset Score" those from before and
    possibly one more. *)
Lemma resets_keep_pending_timers (h : Session.Host) :
  Session.timers (Session.step h Session.NewGame) = Session.timers h
  /\ exists l, Session.timers (Session.step h Session.ResetScore)
               = Session.timers h ++ l.
Proof.
  split.
  - unfold Session.step, Session.rerender, Session.handleGameMove,
      Session.albert_effect. simpl.
    destruct (Session.same_deps _ _); [reflexivity|].
    now destruct (Session.albertNextMove h).
  - unfold Session.step, Session.rerender.
    set (h' := Session.handleGameMove _ _).
    assert (D : Session.same_deps h h' = true).
    { unfold Session.same_deps, h', Session.handleGameMove. simpl.
      destruct (Player_eqb _ PO && negb _); simpl;
        destruct (Session.albertNextMove h), (currentPlayer (Session.game h)),
          (gameOver (Session.game h)); simpl; rewrite ?Nat.eqb_refl;
          reflexivity. }
    rewrite D. unfold h', Session.handleGameMove. simpl.
    destruct (Player_eqb _ PO && negb _); simpl.
    + now exists [board (Session.game h)].
    + exists []. now rewrite app_nil_r.
Qed.

(** C9. The timer scheduled for the board [[_,_,_,_,X,_,_,_,_]] is still
    pending after "New Game" has cleared the board. It fires, choosing cell 0
    for the board it captured, and as soon as the user has played cell 8 of
    the new game that stale choice is played on the new board, for which the
    heuristic would choose the center. *)
Theorem stale_move_lands_after_reset :
  Session.timers (Session.run Session.initialHost [Session.Click 4; Session.NewGame])
    = [board_after_center]
  /\ board (Session.game
              (Session.run Session.initialHost [Session.Click 4; Session.NewGame]))
     = repeat Null 9
  /\ App.getAlbertMove board_after_center = 0%Z
  /\ Session.albertNextMove
       (Session.run Session.initialHost
          [Session.Click 4; Session.NewGame; Session.TimerFires]) = Some 0
  /\ board (Session.game (Session.run Session.initialHost ghost_trace))
     = [O; Null; Null; Null; Null; Null; Null; Null; X]
  /\ App.getAlbertMove [Null; Null; Null; Null; Null; Null; Null; Null; X] = 4%Z.
Proof. repeat split. Qed.

(** * Further properties of the code *)

(** ** The board under moves *)

(** X1. A call of [makeMove] changes no cell other than the one it is given,
    and no cell that holds a mark: a mark, once placed, stays until the
    board is reset. *)
Theorem applyMove_keeps_cells (gs : GameState) (index j : nat) :
  j <> index \/ truthy (get (board gs) j) = true ->
  get (board (applyMove gs index)) j = get (board gs) j.
Proof.
  intros H. unfold applyMove.
  destruct (makeMove gs index) as [e|] eqn:E; [|reflexivity].
  apply makeMove_Some in E as (_ & Hfree & -> & _).
  rewrite get_set. destruct (Nat.eqb_spec j index) as [->|N]; [|reflexivity].
  destruct H as [H|H]; [contradiction|congruence].
Qed.

Lemma applyMove_keeps_cells_witness :
  (0 <> 2 \/ truthy (get (board x_about_to_win) 0) = true)
  /\ get (board (applyMove x_about_to_win 2)) 0 = get (board x_about_to_win) 0.
Proof.
  split; [left; discriminate|].
  apply (@applyMove_keeps_cells x_about_to_win 2 0). left. discriminate.
Defined.

(** The [onGameEnd] call of a move, read off the state it produces. *)
Lemma makeMove_gameEnd (gs : GameState) (index : nat) (e : MoveEffect) :
  makeMove gs index = Some e ->
  gameEnd e =
  if gameOver (newState e) then
    Some (if strict_eq (winner (newState e)) (Str "X") then win
          else if strict_eq (winner (newState e)) (Str "O") then lose
          else draw)
  else None.
Proof.
  unfold makeMove.
  destruct (truthy _ || gameOver gs); [discriminate|].
  destruct (negb _ || _) eqn:Hover;
    [destruct (strict_eq _ (Str "X")) eqn:EX;
       [|destruct (strict_eq _ (Str "O")) eqn:EO]|];
    intros [= <-]; cbn [newState gameEnd winner gameOver];
    rewrite ?Hover, ?EX, ?EO; reflexivity.
Qed.

(** X2. The status line shown after a move agrees with what the move told
    the host: "You Won" exactly with [onGameEnd('win')], "Albert Won" with
    ['lose'], "Draw" with ['draw']; when [onGameEnd] was not called the game
    goes on and the line names the player who did not just move. *)
Theorem status_matches_gameEnd (gs : GameState) (index : nat) (e : MoveEffect) :
  makeMove gs index = Some e ->
  match gameEnd e with
  | Some win =>
      gameOver (newState e) = true /\ winner (newState e) = Str "X"
      /\ text (getStatusMessage (newState e)) = "🎉 You Won!"%string
  | Some lose =>
      gameOver (newState e) = true /\ winner (newState e) = Str "O"
      /\ text (getStatusMessage (newState e)) = "🤖 Albert Won!"%string
  | Some draw =>
      gameOver (newState e) = true
      /\ text (getStatusMessage (newState e)) = "🤝 It's a Draw!"%string
  | None =>
      gameOver (newState e) = false
      /\ text (getStatusMessage (newState e)) =
         match currentPlayer gs with
         | PX => "Albert's Turn (O)"%string
         | PO => "Your Turn (X)"%string
         end
  end.
Proof.
  intros H. pose proof (@makeMove_gameEnd gs index e H) as G.
  apply makeMove_Some in H as (_ & _ & _ & Hp & _).
  rewrite G. unfold getStatusMessage. rewrite Hp.
  destruct (gameOver (newState e)).
  - destruct (strict_eq _ (Str "X")) eqn:EX.
    { apply strict_eq_true in EX. auto. }
    destruct (strict_eq _ (Str "O")) eqn:EO.
    { apply strict_eq_true in EO. auto. }
    auto.
  - split; [reflexivity|]. now destruct (currentPlayer gs).
Qed.

Lemma status_matches_gameEnd_witness :
  makeMove x_about_to_win 2
  = Some (mkMoveEffect (applyMove x_about_to_win 2) (Some win))
  /\ gameOver (applyMove x_about_to_win 2) = true
  /\ winner (applyMove x_about_to_win 2) = Str "X"
  /\ text (getStatusMessage (applyMove x_about_to_win 2)) = "🎉 You Won!"%string.
Proof.
  assert (E : makeMove x_about_to_win 2
              = Some (mkMoveEffect (applyMove x_about_to_win 2) (Some win)))
    by (vm_compute; reflexivity).
  split; [exact E|].
  exact (@status_matches_gameEnd x_about_to_win 2
           (mkMoveEffect (applyMove x_about_to_win 2) (Some win)) E).
Defined.

(** X3. In every reachable state the [winner] field is what the winner
    check answers on the board of that state. *)
Theorem reachable_winner (s : GameState) :
  reachable s -> winner s = checkWinner (board s).
Proof.
  induction 1 as [|s index _ IH|s _ _|s _ IH]; try reflexivity; try exact IH.
  unfold applyMove. destruct (makeMove s index) as [e|] eqn:E; [|exact IH].
  now apply makeMove_gameOver in E.
Qed.

Lemma reachable_winner_witness :
  reachable (applyMove x_about_to_win 2)
  /\ winner (applyMove x_about_to_win 2) = checkWinner (board (applyMove x_about_to_win 2)).
Proof.
  assert (R : reachable (applyMove x_about_to_win 2)).
  { unfold x_about_to_win. cbn [fold_left]. do 5 apply reach_move. apply reach_init. }
  split; [exact R|]. apply (@reachable_winner _ R).
Defined.

(** ** Turns *)

Lemma count_mark_set (m : string) (a : array) (i : nat) (v : value) :
  truthy (get a i) = false ->
  truthy (Str m) = true ->
  count_mark (Str m) (set a i v)
  = count_mark (Str m) a + (if strict_eq (Str m) v then 1 else 0).
Proof.
  intros Hfree Hm. revert a Hfree.
  induction i as [|i IH]; intros [|c t] Hfree.
  - unfold count_mark. cbn [set filter]. now destruct (strict_eq (Str m) v).
  - unfold count_mark. cbn [set filter]. unfold get in Hfree. simpl in Hfree.
    destruct (strict_eq (Str m) c) eqn:E.
    { apply strict_eq_true in E. subst c. congruence. }
    destruct (strict_eq (Str m) v); simpl; lia.
  - unfold count_mark in *. cbn [set filter strict_eq].
    apply (IH []). now rewrite get_nil.
  - unfold count_mark in *. cbn [set filter].
    specialize (IH t Hfree).
    destruct (strict_eq (Str m) c); cbn [List.length]; rewrite IH; lia.
Qed.

(** X4. In every state that moves at the nine cells and resets lead to, the
    marks on the board and the turn agree: X has as many marks as O when it
    is X's turn, and one more when it is O's turn. *)
Theorem played_turn_parity (s : GameState) :
  played s ->
  count_mark X (board s)
  = count_mark O (board s) + (if Player_eqb (currentPlayer s) PO then 1 else 0).
Proof.
  induction 1 as [|s index _ IH _|s _ _|s _ IH]; try reflexivity; try exact IH.
  unfold applyMove. destruct (makeMove s index) as [e|] eqn:E; [|exact IH].
  apply makeMove_Some in E as (_ & Hfree & -> & -> & _).
  unfold X, O in *.
  rewrite !count_mark_set by (assumption || reflexivity).
  destruct (currentPlayer s); simpl in *; lia.
Qed.

Lemma played_turn_parity_witness :
  played x_about_to_win
  /\ count_mark X (board x_about_to_win)
     = count_mark O (board x_about_to_win)
       + (if Player_eqb (currentPlayer x_about_to_win) PO then 1 else 0).
Proof.
  assert (P : played x_about_to_win).
  { unfold x_about_to_win. cbn [fold_left].
    do 4 (apply played_move; [|lia]). apply played_init. }
  split; [exact P|]. apply (@played_turn_parity _ P).
Defined.

(** ** What Albert's heuristic achieves *)

Lemma find_exists (A : Type) (p : A -> bool) (l : list A) (x : A) :
  In x l -> p x = true -> exists y, find p l = Some y.
Proof.
  intros Hin Hp. destruct (find p l) as [y|] eqn:E; [now exists y|].
  rewrite (find_none _ _ E x Hin) in Hp. discriminate.
Qed.

(** The answer of the heuristic is [-1] or one of the indices 0..8. *)
Lemma getAlbertMove_range (b : array) :
  App.getAlbertMove b = (-1)%Z
  \/ exists i, i < 9 /\ App.getAlbertMove b = Z.of_nat i.
Proof.
  rewrite getAlbertMove_shape.
  assert (S9 : forall p k, find p (seq 0 9) = Some k -> k < 9).
  { intros p k Hk. apply find_some in Hk as [Hk _]. apply in_seq in Hk. lia. }
  destruct (find (placing_wins b "O") _) as [k|] eqn:E1; [right; exists k; eauto|].
  destruct (find (placing_wins b "X") _) as [k|] eqn:E2; [right; exists k; eauto|].
  destruct (Spec.is_empty b 4); [right; exists 4; split; [lia|reflexivity]|].
  destruct (find (Spec.is_empty b) [0; 2; 6; 8]) as [k|] eqn:E4.
  { right. exists k. split; [|reflexivity].
    apply find_some in E4 as [Hin _]. simpl in Hin. lia. }
  destruct (find (Spec.is_empty b) (seq 0 9)) as [k|] eqn:E5;
    [right; exists k; eauto|now left].
Qed.

(** X5. When it is O's turn in a running game and some free cell would give
    O a line, the cell the heuristic answers wins the game: played through
    [makeMove] it leaves O as the winner, the game over, and, Albert's
    counter being below 2^53, one more win on it. *)
Theorem albert_takes_the_win (gs : GameState) (j : nat) :
  currentPlayer gs = PO ->
  gameOver gs = false ->
  below_2_53 (albert (score gs)) ->
  j < 9 ->
  placing_wins (board gs) "O" j = true ->
  exists i,
    i < 9 /\ App.getAlbertMove (board gs) = Z.of_nat i
    /\ winner (applyMove gs i) = Str "O"
    /\ gameOver (applyMove gs i) = true
    /\ score (applyMove gs i)
       = mkScore (player (score gs)) (albert (score gs) + 1) (draws (score gs)).
Proof.
  intros Hturn Hover Hsafe Hj Hwin.
  destruct (@find_exists _ (placing_wins (board gs) "O") (seq 0 9) j) as [i Hi];
    [apply in_seq; lia|assumption|].
  exists i. rewrite getAlbertMove_shape, Hi.
  apply find_some in Hi as [Hin Hp]. apply in_seq in Hin.
  split; [lia|]. split; [reflexivity|].
  unfold placing_wins in Hp. apply andb_prop in Hp as [Hfree Hw].
  apply negb_true_iff in Hfree. apply strict_eq_true in Hw.
  unfold applyMove. destruct (makeMove gs i) as [e|] eqn:E.
  2: { apply makeMove_guard in E as [E|E]; congruence. }
  apply makeMove_Some in E as (_ & _ & _ & _ & W & G & Sc).
  rewrite Hturn in W, G, Sc. cbn [mark] in W, G, Sc.
  rewrite checkWinner_same, Hw in W, G, Sc.
  rewrite W, G, Sc. repeat split.
  cbn. now rewrite (add_1_exact Hsafe).
Qed.

Lemma albert_takes_the_win_witness :
  exists i,
    i < 9
    /\ App.getAlbertMove (board (applyMove x_about_to_win 8)) = Z.of_nat i
    /\ winner (applyMove (applyMove x_about_to_win 8) i) = Str "O"
    /\ gameOver (applyMove (applyMove x_about_to_win 8) i) = true
    /\ score (applyMove (applyMove x_about_to_win 8) i)
       = mkScore (player (score (applyMove x_about_to_win 8)))
                 (albert (score (applyMove x_about_to_win 8)) + 1)
                 (draws (score (applyMove x_about_to_win 8))).
Proof.
  apply (@albert_takes_the_win (applyMove x_about_to_win 8) 5);
    [reflexivity|reflexivity| |lia|reflexivity].
  replace (albert (score (applyMove x_about_to_win 8))) with 0%Z
    by (vm_compute; reflexivity).
  unfold below_2_53. lia.
Defined.

(** X6. When no free cell gives O a line but some free cell would give X
    one, the heuristic answers the lowest such cell: Albert blocks. *)
Theorem albert_blocks (b : array) (j : nat) :
  (forall k, k < 9 -> placing_wins b "O" k = false) ->
  j < 9 ->
  placing_wins b "X" j = true ->
  exists i,
    i <= j /\ App.getAlbertMove b = Z.of_nat i
    /\ placing_wins b "X" i = true
    /\ forall k, k < i -> placing_wins b "X" k = false.
Proof.
  intros Hno Hj Hx. rewrite getAlbertMove_shape.
  rewrite (proj2 (find_None_iff (placing_wins b "O") (seq 0 9)))
    by (intros k Hk; apply Hno; apply in_seq in Hk; lia).
  rewrite <- for_first_find.
  assert (G : forall n i0, i0 <= j < i0 + n ->
            exists i, for_first (placing_wins b "X") i0 n = Some i
                      /\ i <= j /\ placing_wins b "X" i = true
                      /\ forall k, i0 <= k < i -> placing_wins b "X" k = false).
  { induction n as [|n IH]; intros i0 Hr; [lia|]. cbn [for_first].
    destruct (placing_wins b "X" i0) eqn:E.
    - exists i0. repeat split; try lia; assumption.
    - destruct (Nat.eq_dec i0 j) as [->|N]; [congruence|].
      destruct (IH (S i0)) as (i & Hi & Hle & Hp & Hlow); [lia|].
      exists i. repeat split; try assumption.
      intros k Hk. destruct (Nat.eq_dec k i0) as [->|Nk]; [assumption|].
      apply Hlow. lia. }
  destruct (G 9 0) as (i & Hi & Hle & Hp & Hlow); [lia|].
  exists i. rewrite Hi. repeat split; try assumption.
  intros k Hk. apply Hlow. lia.
Qed.

Lemma albert_blocks_witness :
  (forall k, k < 9 -> placing_wins board_x_threatens "O" k = false)
  /\ 2 < 9
  /\ placing_wins board_x_threatens "X" 2 = true
  /\ exists i,
       i <= 2 /\ App.getAlbertMove board_x_threatens = Z.of_nat i
       /\ placing_wins board_x_threatens "X" i = true
       /\ forall k, k < i -> placing_wins board_x_threatens "X" k = false.
Proof.
  assert (H : forall k, k < 9 -> placing_wins board_x_threatens "O" k = false).
  { intros k Hk. do 9 (destruct k as [|k]; [reflexivity|]). lia. }
  split; [exact H|]. split; [lia|]. split; [reflexivity|].
  apply (@albert_blocks board_x_threatens 2 H); [lia|reflexivity].
Defined.

Lemma applyMove_changes (gs : GameState) (index : nat) :
  gameOver gs = false ->
  truthy (get (board gs) index) = false ->
  applyMove gs index <> gs.
Proof.
  intros Hover Hfree. unfold applyMove.
  destruct (makeMove gs index) as [e|] eqn:E.
  - apply makeMove_currentPlayer in E. intros H. rewrite H in E.
    symmetry in E. now apply other_neq in E.
  - apply makeMove_guard in E as [E|E]; congruence.
Qed.

(** X7. While a game played at the nine cells is running, the heuristic
    never answers [-1]: it names one of the nine cells, that cell is free,
    and playing it changes the state. *)
Theorem albert_has_a_move (s : GameState) :
  played s ->
  gameOver s = false ->
  exists m,
    m < 9 /\ App.getAlbertMove (board s) = Z.of_nat m
    /\ truthy (get (board s) m) = false
    /\ applyMove s m <> s.
Proof.
  intros P Hover.
  pose proof (played_board P) as [Hlen _].
  pose proof (reachable_gameOver (played_reachable P)) as G.
  rewrite Hover in G. symmetry in G. apply orb_false_elim in G as [_ G].
  rewrite (played_no_null_cell P) in G.
  destruct (getAlbertMove_range (board s)) as [N|(m & Hm & E)].
  - pose proof (proj1 (getAlbertMove_none (board s)) N) as A.
    assert (F : Spec.board_full (board s) = true)
      by (apply board_full_get; now rewrite Hlen).
    congruence.
  - exists m. pose proof (@getAlbertMove_free_cell (board s) m E) as [_ Hfree].
    repeat split; try assumption. now apply applyMove_changes.
Qed.

Lemma albert_has_a_move_witness :
  played (applyMove initialState 4)
  /\ gameOver (applyMove initialState 4) = false
  /\ exists m,
       m < 9 /\ App.getAlbertMove (board (applyMove initialState 4)) = Z.of_nat m
       /\ truthy (get (board (applyMove initialState 4)) m) = false
       /\ applyMove (applyMove initialState 4) m <> applyMove initialState 4.
Proof.
  assert (P : played (applyMove initialState 4))
    by (apply played_move; [apply played_init|lia]).
  split; [exact P|]. split; [reflexivity|].
  apply (@albert_has_a_move (applyMove initialState 4) P). reflexivity.
Defined.

(** ** Draws *)

(** The winner check answers [null] or the content of a cell. *)
Lemma checkWinner_loop_cell (b : array) (ls : list (nat * nat * nat)) :
  TicTacToe.checkWinner_loop b ls = Null
  \/ In (TicTacToe.checkWinner_loop b ls) b.
Proof.
  induction ls as [|[[x y] z] rest IH]; [now left|].
  cbn [TicTacToe.checkWinner_loop fst].
  destruct (line_complete b (x, y, z)) eqn:E; [|exact IH].
  right. unfold line_complete in E.
  apply andb_prop in E as [E _]. apply andb_prop in E as [E _].
  unfold get in *. destruct (nth_in_or_default x b Undefined) as [H|H];
    [exact H|]. rewrite H in E. discriminate.
Qed.

(** X8. In a game played at the nine cells, [onGameEnd('draw')] is called
    only for a board without an empty cell on which the winner check finds
    no line. *)
Theorem draw_only_on_full_board (s : GameState) (index : nat) (e : MoveEffect) :
  played s ->
  index < 9 ->
  makeMove s index = Some e ->
  gameEnd e = Some draw ->
  checkWinner (board (newState e)) = Null
  /\ Spec.board_full (board (newState e)) = true.
Proof.
  intros P Hi E D.
  assert (P' : played (newState e)).
  { pose proof (played_move P Hi) as Q. unfold applyMove in Q. now rewrite E in Q. }
  pose proof (@makeMove_gameOver s index e E) as [W G].
  pose proof (@makeMove_gameEnd s index e E) as GE. rewrite D in GE.
  destruct (gameOver (newState e)); [|discriminate].
  destruct (strict_eq (winner (newState e)) (Str "X")) eqn:EX; [discriminate|].
  destruct (strict_eq (winner (newState e)) (Str "O")) eqn:EO; [discriminate|].
  apply strict_eq_false in EX, EO.
  assert (N : winner (newState e) = Null).
  { destruct (checkWinner_loop_cell (board (newState e)) TicTacToe.lines) as [H|H];
      fold (checkWinner (board (newState e))) in H; rewrite <- W in H;
      [exact H|].
    pose proof (played_board P') as [_ F].
    rewrite Forall_forall in F. destruct (F _ H) as [C|[C|C]];
      [exact C|contradiction|contradiction]. }
  rewrite <- W. split; [exact N|].
  rewrite N in G. cbn in G. now rewrite <- played_no_null_cell.
Qed.

Lemma draw_only_on_full_board_witness :
  played before_draw
  /\ 8 < 9
  /\ makeMove before_draw 8 = Some (mkMoveEffect (applyMove before_draw 8) (Some draw))
  /\ checkWinner (board (applyMove before_draw 8)) = Null
  /\ Spec.board_full (board (applyMove before_draw 8)) = true.
Proof.
  assert (P : played before_draw).
  { unfold before_draw. cbn [fold_left].
    do 8 (apply played_move; [|lia]). apply played_init. }
  assert (E : makeMove before_draw 8
              = Some (mkMoveEffect (applyMove before_draw 8) (Some draw)))
    by (vm_compute; reflexivity).
  split; [exact P|]. split; [lia|]. split; [exact E|].
  apply (@draw_only_on_full_board before_draw 8
           (mkMoveEffect (applyMove before_draw 8) (Some draw)) P);
    [lia|exact E|reflexivity].
Defined.

(** ** Resets together *)

(** X9. The two resets commute, and together, in either order, they give
    back the state the component starts from. *)
Theorem resets_commute (gs : GameState) :
  resetGame (resetScore gs) = resetScore (resetGame gs)
  /\ resetGame (resetScore gs) = initialState.
Proof. split; reflexivity. Qed.

(** ** The host, the component and the timers together *)

Lemma component_makeMove_game (h : Session.Host) (index : nat) :
  Session.game (Session.component_makeMove h index)
  = applyMove (Session.game h) index.
Proof.
  unfold Session.component_makeMove, applyMove, Session.handleGameMove.
  destruct (makeMove (Session.game h) index) as [e|]; [|reflexivity].
  now destruct (Player_eqb _ PO && negb _).
Qed.

Lemma component_makeMove_ok (h : Session.Host) (index : nat) :
  session_ok h -> index < 9 -> session_ok (Session.component_makeMove h index).
Proof.
  intros [P A] Hi. split.
  - rewrite component_makeMove_game. now apply played_move.
  - unfold Session.component_makeMove, Session.handleGameMove.
    destruct (makeMove (Session.game h) index) as [e|]; [|exact A].
    destruct (Player_eqb _ PO && negb _); cbn [Session.albertNextMove];
      (destruct (gameEnd e); cbn [Session.handleGameEnd Session.albertNextMove];
       [discriminate|exact A]).
Qed.

Lemma albert_effect_ok (h : Session.Host) :
  session_ok h -> session_ok (Session.albert_effect h).
Proof.
  intros H. unfold Session.albert_effect.
  destruct (Session.albertNextMove h) as [m|] eqn:E; [|exact H].
  destruct (Player_eqb _ PO && negb _); [|exact H].
  apply component_makeMove_ok; [exact H|]. now apply (proj2 H).
Qed.

Lemma rerender_ok (h h' : Session.Host) :
  session_ok h' -> session_ok (Session.rerender h h').
Proof.
  intros H. unfold Session.rerender.
  destruct (Session.same_deps h h'); [exact H|now apply albert_effect_ok].
Qed.

Lemma handleGameMove_ok (h : Session.Host) (gs : GameState) :
  session_ok h -> session_ok (Session.handleGameMove h gs).
Proof.
  intros H. unfold Session.handleGameMove.
  destruct (Player_eqb _ PO && negb _); exact H.
Qed.

Lemma step_ok (h : Session.Host) (ev : Session.Event) :
  session_ok h -> session_ok (Session.step h ev).
Proof.
  intros H. pose proof H as [P A]. destruct ev as [index| | |]; cbn [Session.step].
  - destruct (index <? _) eqn:L; cbn [andb]; [|exact H].
    destruct (negb _); [|exact H].
    apply rerender_ok, component_makeMove_ok; [exact H|].
    apply Nat.ltb_lt in L. now rewrite (proj1 (played_board P)) in L.
  - apply rerender_ok, handleGameMove_ok. split; [now apply played_resetGame|exact A].
  - apply rerender_ok, handleGameMove_ok. split; [now apply played_resetScore|exact A].
  - destruct (Session.timers h) as [|b rest]; [exact H|].
    apply rerender_ok. unfold Session.timer_callback.
    destruct (negb _) eqn:N; [|split; assumption].
    split; [exact P|]. cbn [Session.albertNextMove]. intros m [= <-].
    destruct (getAlbertMove_range b) as [E|(i & Hi & E)]; rewrite E in *.
    + discriminate.
    + now rewrite Nat2Z.id.
Qed.

Lemma run_ok (evs : list Session.Event) (h : Session.Host) :
  session_ok h -> session_ok (Session.run h evs).
Proof.
  revert h. induction evs as [|ev evs IH]; intros h H; [exact H|].
  apply (IH (Session.step h ev)). now apply step_ok.
Qed.

(** X10. Whatever the user clicks and whenever the timers fire, the board
    has nine cells, each [null], ['X'] or ['O'], the game state is one that
    moves at the nine cells lead to, and a move the host hands to the
    component is an index below 9: through the interface no mark is ever
    placed past the board. *)
Theorem session_board_invariant (evs : list Session.Event) :
  List.length (board (Session.game (Session.run Session.initialHost evs))) = 9
  /\ Forall cell_ok (board (Session.game (Session.run Session.initialHost evs)))
  /\ played (Session.game (Session.run Session.initialHost evs))
  /\ forall m,
       Session.albertNextMove (Session.run Session.initialHost evs) = Some m ->
       m < 9.
Proof.
  assert (H : session_ok (Session.run Session.initialHost evs)).
  { apply run_ok. split; [apply played_init|discriminate]. }
  destruct H as [P A]. pose proof (played_board P) as [L F]. auto.
Qed.

(** X11. A cell whose button is enabled: the status line reads "Your Turn
    (X)", and the click puts X into that cell and passes the turn to O. *)
Theorem enabled_cell_click (gs : GameState) (index : nat) :
  cell_disabled gs index = false ->
  text (getStatusMessage gs) = "Your Turn (X)"%string
  /\ get (board (applyMove gs index)) index = Str "X"
  /\ currentPlayer (applyMove gs index) = PO.
Proof.
  unfold cell_disabled. intros H.
  apply orb_false_elim in H as [H Hfree]. apply orb_false_elim in H as [Hover Hp].
  assert (Cp : currentPlayer gs = PX) by (destruct (currentPlayer gs); [reflexivity|discriminate]).
  split; [unfold getStatusMessage; now rewrite Hover, Cp|].
  unfold applyMove. destruct (makeMove gs index) as [e|] eqn:E.
  - apply makeMove_Some in E as (_ & _ & -> & -> & _).
    rewrite get_set_same, Cp. split; reflexivity.
  - apply makeMove_guard in E as [E|E]; congruence.
Qed.

Lemma enabled_cell_click_witness :
  cell_disabled x_about_to_win 2 = false
  /\ text (getStatusMessage x_about_to_win) = "Your Turn (X)"%string
  /\ get (board (applyMove x_about_to_win 2)) 2 = Str "X"
  /\ currentPlayer (applyMove x_about_to_win 2) = PO.
Proof.
  split; [reflexivity|].
  apply (@enabled_cell_click x_about_to_win 2). reflexivity.
Defined.

(** X12. The component's effect changes at most one cell of the board: the
    one the host named in [albertMove], on O's turn, and what it puts there
    is an O. *)
Theorem albert_effect_places_only_O (h : Session.Host) (j : nat) :
  get (board (Session.game (Session.albert_effect h))) j
    <> get (board (Session.game h)) j ->
  Session.albertNextMove h = Some j
  /\ currentPlayer (Session.game h) = PO
  /\ get (board (Session.game (Session.albert_effect h))) j = Str "O".
Proof.
  unfold Session.albert_effect.
  destruct (Session.albertNextMove h) as [m|]; [|intros H; now contradiction H].
  destruct (Player_eqb _ PO && negb _) eqn:C; [|intros H; now contradiction H].
  apply andb_prop in C as [C _].
  assert (Cp : currentPlayer (Session.game h) = PO)
    by (destruct (currentPlayer (Session.game h)); [discriminate|reflexivity]).
  rewrite component_makeMove_game. unfold applyMove.
  destruct (makeMove (Session.game h) m) as [e|] eqn:E;
    [|intros H; now contradiction H].
  apply makeMove_Some in E as (_ & _ & -> & _).
  rewrite get_set, Cp. destruct (Nat.eqb_spec j m) as [->|N].
  - intros _. repeat split.
  - intros H. now contradiction H.
Qed.

Lemma albert_effect_places_only_O_witness :
  get (board (Session.game
         (Session.albert_effect
            (Session.mkHost (applyMove initialState 4) (Some 0) [])))) 0
    <> get (board (applyMove initialState 4)) 0
  /\ get (board (Session.game
            (Session.albert_effect
               (Session.mkHost (applyMove initialState 4) (Some 0) [])))) 0
     = Str "O".
Proof.
  assert (H : get (board (Session.game
                     (Session.albert_effect
                        (Session.mkHost (applyMove initialState 4) (Some 0) [])))) 0
              <> get (board (Session.game
                        (Session.mkHost (applyMove initialState 4) (Some 0) []))) 0)
    by (vm_compute; discriminate).
  split; [exact H|].
  apply (@albert_effect_places_only_O
           (Session.mkHost (applyMove initialState 4) (Some 0) []) 0 H).
Defined.

(** A click on an enabled cell, with the host at rest: the mark is placed,
    the move left over from Albert's last turn is tried and rejected, and
    when the game goes on one timer is pending, for the new board. *)
Lemma click_at_rest (h : Session.Host) (index : nat) :
  at_rest h ->
  index < List.length (board (Session.game h)) ->
  truthy (get (board (Session.game h)) index) = false ->
  gameOver (applyMove (Session.game h) index) = false ->
  Session.step h (Session.Click index)
  = {| Session.game := applyMove (Session.game h) index;
       Session.albertNextMove := Session.albertNextMove h;
       Session.timers := [board (applyMove (Session.game h) index)] |}.
Proof.
  intros (T & Cp & Ov & St) Hi Hfree Hgo.
  cbn [Session.step]. unfold cell_disabled.
  rewrite (proj2 (Nat.ltb_lt _ _) Hi), Ov, Cp, Hfree. cbn [Player_eqb orb negb andb].
  unfold Session.component_makeMove. unfold applyMove in *.
  destruct (makeMove (Session.game h) index) as [e|] eqn:E.
  2: { apply makeMove_guard in E as [E|E]; congruence. }
  pose proof (@makeMove_gameEnd _ _ _ E) as GE. rewrite Hgo in GE.
  apply makeMove_Some in E as (_ & _ & Hb & Hp & _).
  rewrite Cp in Hp, Hb. cbn [other mark] in Hp, Hb.
  rewrite GE. unfold Session.handleGameMove. rewrite Hp, Hgo, T.
  cbn [Player_eqb negb andb app Session.timers Session.albertNextMove Session.game].
  unfold Session.rerender, Session.same_deps.
  cbn [Session.game Session.albertNextMove]. rewrite Cp, Hp.
  cbn [Player_eqb]. rewrite andb_false_r. cbn [andb].
  unfold Session.albert_effect. cbn [Session.albertNextMove Session.game].
  destruct (Session.albertNextMove h) as [k|] eqn:A; [|reflexivity].
  rewrite Hp, Hgo. cbn [Player_eqb negb andb].
  unfold Session.component_makeMove. cbn [Session.game].
  assert (N : makeMove (newState e) k = None).
  { apply makeMove_guard. right. rewrite Hb, get_set.
    destruct (Nat.eqb_spec k index) as [->|Nk]; [reflexivity|]. now apply St. }
  now rewrite N.
Qed.

(** X13. One round of play with the host at rest: the user clicks a free
    cell, the game goes on, the timer fires. The game state is then the one
    after the user's move followed by the move the heuristic chose for the
    board the user left; no timer is pending; and unless Albert's move ended
    the game the host is at rest again. *)
Theorem click_then_timer (h : Session.Host) (index m : nat) :
  at_rest h ->
  index < List.length (board (Session.game h)) ->
  truthy (get (board (Session.game h)) index) = false ->
  gameOver (applyMove (Session.game h) index) = false ->
  App.getAlbertMove (board (applyMove (Session.game h) index)) = Z.of_nat m ->
  Session.game (Session.run h [Session.Click index; Session.TimerFires])
  = applyMove (applyMove (Session.game h) index) m
  /\ Session.timers (Session.run h [Session.Click index; Session.TimerFires]) = []
  /\ (gameOver (Session.game
                  (Session.run h [Session.Click index; Session.TimerFires])) = false ->
      at_rest (Session.run h [Session.Click index; Session.TimerFires])).
Proof.
  intros R Hi Hfree Hgo Hm.
  unfold Session.run. cbn [fold_left].
  rewrite (click_at_rest R Hi Hfree Hgo).
  destruct R as (T & Cp & Ov & St).
  set (s1 := applyMove (Session.game h) index) in *.
  assert (Hp1 : currentPlayer s1 = PO).
  { unfold s1. unfold applyMove.
    destruct (makeMove (Session.game h) index) as [e|] eqn:E.
    - apply makeMove_currentPlayer in E. now rewrite E, Cp.
    - apply makeMove_guard in E as [E|E]; congruence. }
  pose proof (@getAlbertMove_free_cell (board s1) m Hm) as [Hm9 Hmfree].
  cbn [Session.step Session.timers]. unfold Session.timer_callback.
  rewrite Hm.
  replace (negb (Z.of_nat m =? -1)%Z) with true
    by (symmetry; apply negb_true_iff, Z.eqb_neq; lia).
  rewrite Nat2Z.id.
  cbn [Session.game Session.albertNextMove Session.timers].
  (* the stale move, if any, is not the new one *)
  assert (D : Session.same_deps
                {| Session.game := s1;
                   Session.albertNextMove := Session.albertNextMove h;
                   Session.timers := [board s1] |}
                {| Session.game := s1;
                   Session.albertNextMove := Some m;
                   Session.timers := [] |} = false).
  { unfold Session.same_deps. cbn [Session.albertNextMove Session.game].
    destruct (Session.albertNextMove h) as [k|] eqn:A; [|reflexivity].
    destruct (Nat.eqb_spec k m) as [->|N]; [|reflexivity].
    exfalso. specialize (St m eq_refl).
    assert (K : get (board s1) m = get (board (Session.game h)) m).
    { unfold s1, applyMove.
      destruct (makeMove (Session.game h) index) as [e|] eqn:E; [|reflexivity].
      apply makeMove_Some in E as (_ & _ & -> & _).
      apply get_set_other. intros ->. congruence. }
    congruence. }
  unfold Session.rerender. rewrite D.
  unfold Session.albert_effect. cbn [Session.albertNextMove Session.game].
  rewrite Hp1, Hgo. cbn [Player_eqb negb andb].
  unfold Session.component_makeMove. cbn [Session.game].
  destruct (makeMove s1 m) as [e2|] eqn:E2.
  2: { apply makeMove_guard in E2 as [E2|E2]; congruence. }
  assert (A2 : applyMove s1 m = newState e2) by (unfold applyMove; now rewrite E2).
  pose proof (@makeMove_gameEnd _ _ _ E2) as GE.
  apply makeMove_Some in E2 as (_ & _ & Hb & Hp & _).
  rewrite Hp1 in Hp, Hb. cbn [other mark] in Hp, Hb.
  unfold Session.handleGameMove. rewrite Hp. cbn [Player_eqb andb].
  cbn [Session.game Session.timers Session.albertNextMove].
  rewrite A2. split; [reflexivity|].
  split; [now destruct (gameEnd e2)|].
  intros Hgo2. rewrite Hgo2 in GE. rewrite GE.
  repeat split; try assumption. cbn [Session.albertNextMove Session.game].
  intros k [= <-]. now rewrite Hb, get_set_same.
Qed.

Lemma click_then_timer_witness :
  at_rest host_after_one_round
  /\ Session.game (Session.run host_after_one_round
                     [Session.Click 8; Session.TimerFires])
     = applyMove (applyMove (Session.game host_after_one_round) 8) 2
  /\ Session.timers (Session.run host_after_one_round
                       [Session.Click 8; Session.TimerFires]) = []
  /\ (gameOver (Session.game
                  (Session.run host_after_one_round
                     [Session.Click 8; Session.TimerFires])) = false ->
      at_rest (Session.run host_after_one_round
                 [Session.Click 8; Session.TimerFires])).
Proof.
  assert (R : at_rest host_after_one_round).
  { split; [reflexivity|]. split; [reflexivity|]. split; [reflexivity|].
    intros k H. vm_compute in H. injection H as <-. reflexivity. }
  split; [exact R|].
  apply (@click_then_timer host_after_one_round 8 2 R);
    [vm_compute; lia|reflexivity|reflexivity|reflexivity].
Defined.
